(** * mempool: a power-of-two size-class allocator over mmap'ed arenas

    Shallow embedding of [mempool.c] and the properties its specification
    states about it.

    Conventions of the embedding (LP64 Linux, the Makefile's debug build):
    - [int] is 32-bit signed, [unsigned int] 32-bit, [long] and pointers
      64-bit; [sizeof(void * )] is 8.  Signed overflow and out-of-bounds
      array accesses are undefined behaviour in C and appear as faults.
    - [assert] is active (the Makefile does not define NDEBUG); a failed
      assertion aborts the program and appears as a fault.
    - mmap'ed memory is a finite map from byte addresses to byte values;
      an address that is not mapped is absent from the map.
    - the arrays obtained from malloc/realloc ([ps] and [sizes]) live in
      a separate finite map from block address to the block's elements.
    - the operating system is deterministic in the model: mappings and
      heap blocks are placed at increasing addresses, and two scripts say
      which of the coming mmap and malloc/realloc calls succeed. *)

From stdpp Require Import base gmap list.

Open Scope Z_scope.

(** ** Faults and the state monad of the embedding *)

Inductive fault : Type :=
| AssertFailed      (* assert(...) failed: abort() *)
| OutOfBounds       (* array index outside the array: undefined behaviour *)
| SignedOverflow    (* overflow of a signed int: undefined behaviour *)
| InvalidAccess     (* load or store at an address that is not mapped *)
| InvalidBlock      (* use of a heap block that is not live *)
| NoTermination.    (* a loop that does not reach its exit *)

Inductive outcome (A : Type) : Type :=
| Ret (a : A)
| Fault (f : fault).
Arguments Ret {A} a.
Arguments Fault {A} f.

Inductive event : Type :=
| EvMmap (addr len : Z)          (* a successful mmap of len bytes *)
| EvMunmap (addr len : Z)        (* a successful munmap(addr, len) *)
| EvStderr (len addr : Z).       (* "Failed to unmap <len> bytes at <addr>" *)

Record world : Type := World {
  page_size : Z;                 (* sysconf(_SC_PAGESIZE) *)
  mem : gmap Z Z;                (* mapped bytes *)
  heap : gmap Z (list Z);        (* live malloc blocks, as element arrays *)
  map_next : Z;                  (* where the next mapping is placed *)
  heap_next : Z;                 (* where the next heap block is placed *)
  map_script : list bool;        (* success of the coming mmap calls *)
  heap_script : list bool;       (* success of the coming malloc/realloc calls *)
  log : list event
}.

Definition M (A : Type) : Type := world → outcome (A * world).

Definition mret {A} (a : A) : M A := λ w, Ret (a, w).

Definition mbind {A B} (c : M A) (k : A → M B) : M B :=
  λ w, match c w with
       | Ret (a, w') => k a w'
       | Fault f => Fault f
       end.

Definition mfail {A} (f : fault) : M A := λ _, Fault f.

Definition lift {A} (o : outcome A) : M A :=
  λ w, match o with Ret a => Ret (a, w) | Fault f => Fault f end.

Definition massert (b : bool) : M unit :=
  if b then mret tt else mfail AssertFailed.

Notation "'let*' x ':=' c 'in' k" := (mbind c (λ x, k))
  (at level 10, x pattern, c at level 100, k at level 200).

(** ** Machine integers *)

Definition INT_MAX : Z := 2147483647.
Definition UINT_MODULUS : Z := 4294967296.
Definition SIZEOF_PTR : Z := 8.
Definition SIZEOF_INT : Z := 4.

Definition to_uint (x : Z) : Z := x mod UINT_MODULUS.

Definition to_int (x : Z) : Z :=
  let u := x mod UINT_MODULUS in
  if u <=? INT_MAX then u else u - UINT_MODULUS.

(** [1 << k] on int; shifting into or past the sign bit is undefined. *)
Definition shl1 (k : Z) : outcome Z :=
  if (0 <=? k) && (k <? 31) then Ret (Z.shiftl 1 k) else Fault SignedOverflow.

(** ** Constants of mempool.c *)

Definition FASTBIN_SIZE : Z := 7.
Definition HEADER_SIZE : Z := 4.
Definition NULL : Z := 0.

(** ** Mapped memory: little-endian loads and stores *)

Fixpoint le_encode (n : nat) (v : Z) : list Z :=
  match n with
  | O => []
  | S k => (v mod 256) :: le_encode k (v / 256)
  end.

Fixpoint le_decode (bs : list Z) : Z :=
  match bs with
  | [] => 0
  | b :: bs' => b + 256 * le_decode bs'
  end.

Fixpoint load_bytes (m : gmap Z Z) (a : Z) (n : nat) : option (list Z) :=
  match n with
  | O => Some []
  | S k =>
      match m !! a, load_bytes m (a + 1) k with
      | Some b, Some bs => Some (b :: bs)
      | _, _ => None
      end
  end.

Fixpoint store_bytes (m : gmap Z Z) (a : Z) (bs : list Z) : option (gmap Z Z) :=
  match bs with
  | [] => Some m
  | b :: bs' =>
      match m !! a with
      | Some _ => store_bytes (<[a := b]> m) (a + 1) bs'
      | None => None
      end
  end.

Definition set_mem (w : world) (m : gmap Z Z) : world :=
  World (page_size w) m (heap w) (map_next w) (heap_next w)
        (map_script w) (heap_script w) (log w).

Definition set_heap (w : world) (h : gmap Z (list Z)) : world :=
  World (page_size w) (mem w) h (map_next w) (heap_next w)
        (map_script w) (heap_script w) (log w).

Definition add_event (w : world) (e : event) : world :=
  World (page_size w) (mem w) (heap w) (map_next w) (heap_next w)
        (map_script w) (heap_script w) (log w ++ [e]).

Definition load (n : nat) (a : Z) : M Z :=
  λ w, match load_bytes (mem w) a n with
       | Some bs => Ret (le_decode bs, w)
       | None => Fault InvalidAccess
       end.

Definition store (n : nat) (a v : Z) : M unit :=
  λ w, match store_bytes (mem w) a (le_encode n v) with
       | Some m' => Ret (tt, set_mem w m')
       | None => Fault InvalidAccess
       end.

(** [*(void ** )a] and [*(void ** )a = v] *)
Definition load_ptr (a : Z) : M Z := load 8 a.
Definition store_ptr (a v : Z) : M unit := store 8 a v.

(** [*(int * )a] and [*(int * )a = v] *)
Definition load_int (a : Z) : M Z :=
  let* u := load 4 a in mret (to_int u).
Definition store_int (a v : Z) : M unit := store 4 a v.

(** ** The page source: mmap and munmap *)

Definition round_up_page (pg n : Z) : Z := ((n + pg - 1) / pg) * pg.

Fixpoint fill_zero (m : gmap Z Z) (a : Z) (n : nat) : gmap Z Z :=
  match n with
  | O => m
  | S k => fill_zero (<[a := 0]> m) (a + 1) k
  end.

Fixpoint clear_bytes (m : gmap Z Z) (a : Z) (n : nat) : gmap Z Z :=
  match n with
  | O => m
  | S k => clear_bytes (delete a m) (a + 1) k
  end.

Definition next_decision (s : list bool) : bool * list bool :=
  match s with
  | [] => (true, [])
  | b :: s' => (b, s')
  end.

(** mmap(0, sz, PROT_READ|PROT_WRITE, MAP_PRIVATE|MAP_ANON, -1, 0):
    zero-filled pages at a fresh address, or MAP_FAILED. *)
Definition sys_mmap (sz : Z) : M (option Z) :=
  λ w, let '(ok, s') := next_decision (map_script w) in
       if ok && (0 <? sz) then
         let len := round_up_page (page_size w) sz in
         let a := map_next w in
         Ret (Some a,
              World (page_size w) (fill_zero (mem w) a (Z.to_nat len)) (heap w)
                    (a + len) (heap_next w) s' (heap_script w)
                    (log w ++ [EvMmap a len]))
       else
         Ret (None,
              World (page_size w) (mem w) (heap w) (map_next w) (heap_next w)
                    s' (heap_script w) (log w)).

(** munmap(p, len): 0 on success, -1 when p is not page-aligned or len is
    not positive. *)
Definition sys_munmap (p len : Z) : M Z :=
  λ w, if (p mod page_size w =? 0) && (0 <? len) then
         let n := round_up_page (page_size w) len in
         Ret (0, add_event (set_mem w (clear_bytes (mem w) p (Z.to_nat n)))
                           (EvMunmap p len))
       else Ret (-1, w).

(** ** The heap: malloc, realloc and free of element arrays *)

(** Contents of storage that was allocated and not yet written. *)
Definition UNINIT : Z := 3735928559.

Definition sys_malloc (n : Z) : M Z :=
  λ w, let '(ok, s') := next_decision (heap_script w) in
       if ok then
         let a := heap_next w in
         Ret (a, World (page_size w) (mem w)
                       (<[a := replicate (Z.to_nat n) UNINIT]> (heap w))
                       (map_next w) (a + 8 * Z.max n 1)
                       (map_script w) s' (log w))
       else
         Ret (NULL, World (page_size w) (mem w) (heap w) (map_next w)
                          (heap_next w) (map_script w) s' (log w)).

(** realloc(p, n elements): on success the block moves to a fresh address
    and the old one is released; on failure NULL is returned and the old
    block is untouched. *)
Definition sys_realloc (p n : Z) : M Z :=
  λ w, match heap w !! p with
       | None => Fault InvalidBlock
       | Some old =>
           let '(ok, s') := next_decision (heap_script w) in
           if ok then
             let a := heap_next w in
             let k := Z.to_nat n in
             let new := take k old ++ replicate (k - length old) UNINIT in
             Ret (a, World (page_size w) (mem w)
                           (<[a := new]> (delete p (heap w)))
                           (map_next w) (a + 8 * Z.max n 1)
                           (map_script w) s' (log w))
           else
             Ret (NULL, World (page_size w) (mem w) (heap w) (map_next w)
                              (heap_next w) (map_script w) s' (log w))
       end.

Definition sys_free (p : Z) : M unit :=
  λ w, match heap w !! p with
       | None => Fault InvalidBlock
       | Some _ => Ret (tt, set_heap w (delete p (heap w)))
       end.

(** ** Arrays indexed by a C integer *)

Definition arr_get (l : list Z) (i : Z) : outcome Z :=
  if i <? 0 then Fault OutOfBounds
  else match l !! Z.to_nat i with
       | Some v => Ret v
       | None => Fault OutOfBounds
       end.

Definition arr_set (l : list Z) (i v : Z) : outcome (list Z) :=
  if (0 <=? i) && (i <? Z.of_nat (length l))
  then Ret (<[Z.to_nat i := v]> l)
  else Fault OutOfBounds.

(** [p[i]] and [p[i] = v] for a heap array [p] *)
Definition heap_get (p i : Z) : M Z :=
  λ w, match heap w !! p with
       | None => Fault InvalidBlock
       | Some l => lift (arr_get l i) w
       end.

Definition heap_set (p i v : Z) : M unit :=
  λ w, match heap w !! p with
       | None => Fault InvalidBlock
       | Some l =>
           match arr_set l i v with
           | Ret l' => Ret (tt, set_heap w (<[p := l']> (heap w)))
           | Fault f => Fault f
           end
       end.

(** ** struct __mpool *)

Record mpool : Type := Mpool {
  addr : Z;              (* address of the struct itself *)
  cnt : Z;               (* actual pool count *)
  pal : Z;               (* pool array length (2^x ceil of cnt) *)
  min_pool : Z;          (* minimum pool size *)
  max_pool : Z;          (* maximum pool size *)
  ps : Z;                (* pools: address of a heap array of pointers *)
  sizes : Z;             (* chunk size for each pool: address of a heap array *)
  fastbin : list Z;      (* fastbin for small chunk size, FASTBIN_SIZE heads *)
  hs : list Z            (* heads for pools' free lists *)
}.

Definition set_cnt (mp : mpool) (v : Z) : mpool :=
  Mpool (addr mp) v (pal mp) (min_pool mp) (max_pool mp) (ps mp) (sizes mp)
        (fastbin mp) (hs mp).
Definition set_pal (mp : mpool) (v : Z) : mpool :=
  Mpool (addr mp) (cnt mp) v (min_pool mp) (max_pool mp) (ps mp) (sizes mp)
        (fastbin mp) (hs mp).
Definition set_ps (mp : mpool) (v : Z) : mpool :=
  Mpool (addr mp) (cnt mp) (pal mp) (min_pool mp) (max_pool mp) v (sizes mp)
        (fastbin mp) (hs mp).
Definition set_sizes (mp : mpool) (v : Z) : mpool :=
  Mpool (addr mp) (cnt mp) (pal mp) (min_pool mp) (max_pool mp) (ps mp) v
        (fastbin mp) (hs mp).
Definition set_fastbin (mp : mpool) (v : list Z) : mpool :=
  Mpool (addr mp) (cnt mp) (pal mp) (min_pool mp) (max_pool mp) (ps mp)
        (sizes mp) v (hs mp).
Definition set_hs (mp : mpool) (v : list Z) : mpool :=
  Mpool (addr mp) (cnt mp) (pal mp) (min_pool mp) (max_pool mp) (ps mp)
        (sizes mp) (fastbin mp) v.

(** PAGE_SIZE: ((unsigned int)sysconf(_SC_PAGESIZE)) *)
Definition PAGE_SIZE : M Z := λ w, Ret (to_uint (page_size w), w).

(** ** get_mmap *)

Definition get_mmap (sz : Z) : M Z :=
  let* r := sys_mmap sz in
  match r with
  | None => mret NULL            (* p == MAP_FAILED *)
  | Some p => mret p
  end.

(** ** iceil2: base-2 integer ceiling, on unsigned int *)

Definition iceil2 (x : Z) : Z :=
  let x := to_uint (x - 1) in
  let x := Z.lor x (Z.shiftr x 1) in
  let x := Z.lor x (Z.shiftr x 2) in
  let x := Z.lor x (Z.shiftr x 4) in
  let x := Z.lor x (Z.shiftr x 8) in
  let x := Z.lor x (Z.shiftr x 16) in
  to_uint (x + 1).

(** ** mpool_new_pool *)

(** The body of [for (int i = 0; i < lim; i++)], run for the [n]
    iterations that remain; returns the final offset [o]. *)
Fixpoint new_pool_loop (n : nat) (pool sz i o last : Z) : M Z :=
  match n with
  | O => mret o
  | S k =>
      let* _ := (if last =? NULL then mret tt
                 else let* v := load_ptr (pool + SIZEOF_PTR * o) in
                      massert (last =? v)) in
      let o' := to_int (to_uint (i * sz) / SIZEOF_PTR) in
      let* _ := store_ptr (pool + SIZEOF_PTR * o')
                          (pool + SIZEOF_PTR * (o' + sz / SIZEOF_PTR)) in
      let* last' := load_ptr (pool + SIZEOF_PTR * o') in
      new_pool_loop k pool sz (i + 1) o' last'
  end.

Definition mpool_new_pool (sz total_sz : Z) : M Z :=
  let* p := get_mmap (if total_sz <? sz then sz else total_sz) in
  if p =? NULL then mret NULL
  else
    let* _ := massert (negb (p =? NULL)) in
    let* _ := massert (SIZEOF_PTR <? sz) in
    let lim := to_int (total_sz / sz) in
    let* o := new_pool_loop (Z.to_nat lim) p sz 0 0 NULL in
    let* _ := store_ptr (p + SIZEOF_PTR * o) NULL in
    mret p.

(** ** add_pool *)

(** [mp->ps[mp->cnt] = p; mp->sizes[mp->cnt] = sz; mp->cnt++; return 0;] *)
Definition add_pool_append (mp : mpool) (p sz : Z) : M (mpool * Z) :=
  let* _ := heap_set (ps mp) (cnt mp) p in
  let* _ := heap_set (sizes mp) (cnt mp) sz in
  if INT_MAX <? cnt mp + 1 then mfail SignedOverflow
  else mret (set_cnt mp (cnt mp + 1), 0).

Definition add_pool (mp : mpool) (p sz : Z) : M (mpool * Z) :=
  let* _ := massert (negb (p =? NULL)) in
  let* _ := massert (0 <? sz) in
  if cnt mp =? pal mp then
    if INT_MAX <? pal mp * 2 then mfail SignedOverflow
    else
      let mp := set_pal mp (pal mp * 2) in
      (* pal * sizeof(void ** ) bytes hold pal pointers;
         pal * sizeof(int * ) bytes hold pal * 8 / 4 ints *)
      let* nps := sys_realloc (ps mp) (pal mp) in
      let* nsizes := sys_realloc (sizes mp)
                                 (pal mp * SIZEOF_PTR / SIZEOF_INT) in
      if (nps =? NULL) || (nsizes =? NULL) then mret (mp, -1)
      else add_pool_append (set_ps (set_sizes mp nsizes) nps) p sz
  else add_pool_append mp p sz.

(** ** mpool_init *)

Definition int_range (x : Z) : outcome Z :=
  if (- INT_MAX - 1 <=? x) && (x <=? INT_MAX) then Ret x
  else Fault SignedOverflow.

(** memset(p, 0, n elements) on a heap array *)
Definition heap_zero (p n : Z) : M unit :=
  λ w, match heap w !! p with
       | None => Fault InvalidBlock
       | Some l =>
           if Z.of_nat (length l) <? n then Fault OutOfBounds
           else Ret (tt, set_heap w
                  (<[p := replicate (Z.to_nat n) 0 ++ drop (Z.to_nat n) l]>
                     (heap w)))
       end.

Definition mpool_init (min2 max2 : Z) : M (option mpool) :=
  let* _ := massert (3 <=? min2) in
  let* cnt := lift (int_range (max2 - min2 + 1)) in
  let palen := to_int (iceil2 (to_uint cnt)) in
  let* _ := massert (0 <? cnt) in
  let* mp := sys_malloc 0 in
  let* pools := sys_malloc palen in
  let* sizes := sys_malloc palen in
  if (mp =? NULL) || (pools =? NULL) || (sizes =? NULL) then mret None
  else
    let* minp := lift (shl1 min2) in
    let* maxp := lift (shl1 max2) in
    let* _ := heap_zero sizes palen in
    let* _ := heap_zero pools palen in
    mret (Some (Mpool mp cnt palen minp maxp pools sizes
                      (replicate (Z.to_nat FASTBIN_SIZE) NULL)
                      (replicate (Z.to_nat cnt) NULL))).

(** ** mpool_free *)

Definition log_stderr (len a : Z) : M unit :=
  λ w, Ret (tt, add_event w (EvStderr len a)).

Fixpoint mpool_free_loop (n : nat) (mp : mpool) (i : Z) : M unit :=
  match n with
  | O => mret tt
  | S k =>
      let* p := heap_get (ps mp) i in
      if p =? NULL then mpool_free_loop k mp (i + 1)        (* continue *)
      else
        let* sz := heap_get (sizes mp) i in
        let* _ := massert (0 <? sz) in
        let* pg := PAGE_SIZE in
        let sz := if sz <? pg then pg else sz in
        let* p := heap_get (ps mp) i in
        let* r := sys_munmap p sz in
        let* _ := (if r =? -1 then log_stderr sz p else mret tt) in
        mpool_free_loop k mp (i + 1)
  end.

Definition mpool_free (mp : mpool) : M unit :=
  let* _ := massert (negb (addr mp =? NULL)) in
  let* _ := mpool_free_loop (Z.to_nat (cnt mp)) mp 0 in
  let* _ := sys_free (ps mp) in
  sys_free (addr mp).

(** ** mpool_alloc *)

(** [for (i = 0, p = mp->min_pool;; i++, p *= 2) if (p > sz) break;]
    returns the pair (i, szceil).  A positive int overflows within 31
    doublings, so 32 rounds of fuel are never used up by a positive
    [p]; with [p <= 0] the C loop may not terminate at all. *)
Fixpoint class_loop (fuel : nat) (i p sz : Z) : outcome (Z * Z) :=
  match fuel with
  | O => Fault NoTermination
  | S k =>
      if sz <? p then Ret (i, p)
      else if INT_MAX <? p * 2 then Fault SignedOverflow
      else class_loop k (i + 1) (p * 2) sz
  end.

Definition size_class (mp : mpool) (sz : Z) : outcome (Z * Z) :=
  class_loop 32 0 (min_pool mp) sz.

(** [_done:] write the chunk size into the header, return what follows it *)
Definition alloc_done (mp : mpool) (cur szceil : Z) : M (mpool * Z) :=
  let* _ := store_int cur szceil in
  mret (mp, cur + SIZEOF_INT).

(** [if (!( *cur)) { ... }]: when the head chunk is the last of its arena,
    attach a new page to it and register the page.  The flag tells
    whether the function goes on (true) or has returned NULL (false). *)
Definition alloc_grow (mp : mpool) (cur szceil nxt : Z) : M (mpool * bool) :=
  if nxt =? NULL then                    (* if at end, attach to a new page *)
    let* pg := PAGE_SIZE in
    let* np := mpool_new_pool (to_uint szceil) pg in
    if np =? NULL then mret (mp, false)
    else
      let* _ := store_ptr cur np in
      let* v := load_ptr cur in
      let* _ := massert (negb (v =? NULL)) in
      let* (mp, r) := add_pool mp np (to_int szceil) in
      if r <? 0 then mret (mp, false) else mret (mp, true)
  else mret (mp, true).

(** From [assert(cur)] to the end of the function: grow at the end of the
    arena, then pop the head. *)
Definition alloc_pop (mp : mpool) (i cur szceil : Z) : M (mpool * Z) :=
  let* _ := massert (negb (cur =? NULL)) in
  let* nxt := load_ptr cur in
  let* (mp, ok) := alloc_grow mp cur szceil nxt in
  if negb ok then mret (mp, NULL)                          (* return NULL *)
  else
    let* v := load_ptr cur in
    let* pg := PAGE_SIZE in
    let* _ := massert (pg <? v) in
    let* v := load_ptr cur in
    let* hs' := lift (arr_set (hs mp) i v) in     (* set head to next head *)
    alloc_done (set_hs mp hs') cur szceil.

(** From [cur = mp->hs[i]] on: lazily allocate and initialise the pool. *)
Definition alloc_from_list (mp : mpool) (i szceil : Z) : M (mpool * Z) :=
  let* cur := lift (arr_get (hs mp) i) in
  if cur =? NULL then
    let* pg := PAGE_SIZE in
    let* pool := mpool_new_pool (to_uint szceil) pg in
    if pool =? NULL then mret (mp, NULL)
    else
      let* hs' := lift (arr_set (hs mp) i pool) in
      let mp := set_hs mp hs' in
      let* _ := heap_set (ps mp) i pool in
      let* _ := heap_set (sizes mp) i (to_int szceil) in
      let* cur := lift (arr_get (hs mp) i) in
      alloc_pop mp i cur szceil
  else alloc_pop mp i cur szceil.

Definition mpool_alloc (mp : mpool) (sz : Z) : M (mpool * Z) :=
  let* _ := massert (negb (addr mp =? NULL)) in
  let* sz := lift (int_range (sz + HEADER_SIZE)) in
  if max_pool mp <=? sz then
    let* cur := get_mmap sz in                             (* just mmap it *)
    if cur =? NULL then mret (mp, NULL)
    else
      let* _ := store_int cur sz in                        (* set chunk size *)
      mret (mp, cur + SIZEOF_INT)
  else
    let* (i, szceil) := lift (size_class mp sz) in
    let* _ := massert (0 <? szceil) in
    if i <? FASTBIN_SIZE then        (* try and find a chunk from fastbin *)
      let* cur := lift (arr_get (fastbin mp) i) in
      if negb (cur =? NULL) then
        let* nxt := load_ptr cur in
        let* fb' := lift (arr_set (fastbin mp) i nxt) in
        alloc_done (set_fastbin mp fb') cur szceil
      else alloc_from_list mp i szceil
    else alloc_from_list mp i szceil.

(** ** mpool_repool *)

(** [(chunk_size >> 4) - 1], the fastbin index release computes *)
Definition repool_index (chunk_size : Z) : Z := Z.shiftr chunk_size 4 - 1.

Definition mpool_repool (mp : mpool) (p : Z) : M mpool :=
  let p := p - HEADER_SIZE in
  let* chunk_size := load_int p in
  if max_pool mp <? chunk_size then
    let* r := sys_munmap p chunk_size in
    let* _ := (if r =? -1 then log_stderr chunk_size p else mret tt) in
    mret mp
  else
    (* If the chunk fits into a fastbin, put it on the fastbin. *)
    let i := repool_index chunk_size in
    if i <? FASTBIN_SIZE then
      let* head := lift (arr_get (fastbin mp) i) in
      let* _ := store_ptr p head in
      let* _ := massert (negb (p =? NULL)) in
      let* fb' := lift (arr_set (fastbin mp) i p) in
      mret (set_fastbin mp fb')
    else
      let i := 0 in
      let* head := lift (arr_get (hs mp) i) in
      let* _ := store_ptr p head in
      let* _ := massert (negb (p =? NULL)) in
      let* hs' := lift (arr_set (hs mp) i p) in
      mret (set_hs mp hs').

(** ** Running the allocator *)

(** A machine with 4096-byte pages on which every mmap, malloc and
    realloc succeeds. *)
Definition world0 : world :=
  World 4096 ∅ ∅ 1048576 4096 [] [] [].

(** The same machine, where the coming malloc/realloc calls succeed or
    fail as the script says. *)
Definition world_heap (heaps : list bool) : world :=
  World 4096 ∅ ∅ 1048576 4096 [] heaps [].

(** The value a computation returns, when it returns. *)
Definition result {A} (o : outcome (A * world)) : option A :=
  match o with
  | Ret (a, _) => Some a
  | Fault _ => None
  end.

(** The value and the final state of a computation, with a default for a
    computation that faults. *)
Definition run_from {A} (d : A) (c : M A) (w : world) : A * world :=
  match c w with
  | Ret r => r
  | Fault _ => (d, w)
  end.

Definition no_pool : mpool := Mpool 0 0 0 0 0 0 0 [] [].

(** Observations of the state, for the traces below. *)
Definition get_log : M (list event) := λ w, Ret (log w, w).
Definition get_block (p : Z) : M (option (list Z)) := λ w, Ret (heap w !! p, w).
Definition is_mapped (a : Z) : M bool :=
  λ w, Ret (bool_decide (is_Some (mem w !! a)), w).






(** The header alloc leaves before the pointer it returns: the
    header-adjusted request on the oversized path, the size of the class
    it computed otherwise. *)
Definition header_for (mp : mpool) (sz : Z) : outcome Z :=
  if max_pool mp <=? sz + HEADER_SIZE then Ret (sz + HEADER_SIZE)
  else match size_class mp (sz + HEADER_SIZE) with
       | Ret (_, c) => Ret c
       | Fault f => Fault f
       end.

(** ** Traces *)

(** init(min2, max2); p = alloc(sz); release(p).  Observed: the class
    index and size alloc computes for the request, the header alloc
    wrote, the index release computes from it, the chunk's address, and
    the fastbin and free-list heads after the release. *)
Definition trace_release (min2 max2 sz : Z)
    : M (option (Z * Z * Z * Z * Z * list Z * list Z)) :=
  let* o := mpool_init min2 max2 in
  match o with
  | None => mret None
  | Some mp =>
      let* (i, c) := lift (size_class mp (sz + HEADER_SIZE)) in
      let* (mp, p) := mpool_alloc mp sz in
      let* h := load_int (p - HEADER_SIZE) in
      let* mp := mpool_repool mp p in
      mret (Some (i, c, h, repool_index h, p - HEADER_SIZE,
                  fastbin mp, hs mp))
  end.

(** init(min2, max2); p1 = alloc(s); release(p1); p2 = alloc(s').
    Observed: p1, p2 and the mappings made. *)
Definition trace_reuse (min2 max2 s s' : Z) : M (option (Z * Z * list event)) :=
  let* o := mpool_init min2 max2 in
  match o with
  | None => mret None
  | Some mp =>
      let* (mp, p1) := mpool_alloc mp s in
      let* mp := mpool_repool mp p1 in
      let* (mp, p2) := mpool_alloc mp s' in
      let* l := get_log in
      mret (Some (p1, p2, l))
  end.

(** init(min2, max2); p = alloc(sz).  Observed: the allocator, p and the
    header before p. *)
Definition trace_alloc (min2 max2 sz : Z) : M (option (mpool * Z * Z)) :=
  let* o := mpool_init min2 max2 in
  match o with
  | None => mret None
  | Some mp =>
      let* (mp, p) := mpool_alloc mp sz in
      let* h := load_int (p - HEADER_SIZE) in
      mret (Some (mp, p, h))
  end.

(** init(4, 12); p1 = alloc(4092); release(p1); p2 = alloc(1).
    Observed: p1 and its header, the free-list heads and the log after
    the release, p2 and its header. *)
Definition trace_boundary
    : M (option (Z * Z * list Z * list event * Z * Z)) :=
  let* o := mpool_init 4 12 in
  match o with
  | None => mret None
  | Some mp =>
      let* (mp, p1) := mpool_alloc mp 4092 in
      let* h1 := load_int (p1 - HEADER_SIZE) in
      let* mp := mpool_repool mp p1 in
      let* l := get_log in
      let heads := hs mp in
      let* (mp, p2) := mpool_alloc mp 1 in
      let* h2 := load_int (p2 - HEADER_SIZE) in
      mret (Some (p1, h1, heads, l, p2, h2))
  end.

(** The registry as the program sees it: count, capacity, the two array
    pointers, and the blocks they point to (None for a pointer to a
    block that is no longer live). *)
Definition registry : Type :=
  Z * Z * Z * Z * option (list Z) * option (list Z).

Definition get_registry (mp : mpool) : M registry :=
  let* a := get_block (ps mp) in
  let* b := get_block (sizes mp) in
  mret (cnt mp, pal mp, ps mp, sizes mp, a, b).

(** init(12, 13) and three alloc(100): every chunk of the 4096-byte class
    is the last of its arena, so each alloc registers a new arena; the
    third registration finds the registry full (cnt = pal = 4).
    Observed: the registry before and after the third alloc, and what
    the third alloc returns. *)
Definition trace_growth : M (option (registry * registry * Z)) :=
  let* o := mpool_init 12 13 in
  match o with
  | None => mret None
  | Some mp =>
      let* (mp, _) := mpool_alloc mp 100 in
      let* (mp, _) := mpool_alloc mp 100 in
      let* before := get_registry mp in
      let* (mp, p) := mpool_alloc mp 100 in
      let* after := get_registry mp in
      mret (Some (before, after, p))
  end.

(** init(min2, max2); p = alloc(sz); destroy.  Observed: p, the
    registered arena pointers and the log after the alloc, the log after
    teardown, and whether the byte at [probe] is still mapped. *)
Definition trace_teardown (min2 max2 sz probe : Z)
    : M (option (Z * option (list Z) * list event * list event * bool)) :=
  let* o := mpool_init min2 max2 in
  match o with
  | None => mret None
  | Some mp =>
      let* (mp, p) := mpool_alloc mp sz in
      let* reg := get_block (ps mp) in
      let* l1 := get_log in
      let* _ := mpool_free mp in
      let* l2 := get_log in
      let* m := is_mapped probe in
      mret (Some (p, reg, l1, l2, m))
  end.

(** init(4, 12); p1 = alloc(40); release(p1); p2 = alloc(100);
    p3 = alloc(40).  Observed: each pointer with the header before it at
    the time it is returned. *)
Definition trace_header : M (option (Z * Z * Z * Z * Z * Z)) :=
  let* o := mpool_init 4 12 in
  match o with
  | None => mret None
  | Some mp =>
      let* (mp, p1) := mpool_alloc mp 40 in
      let* h1 := load_int (p1 - HEADER_SIZE) in
      let* mp := mpool_repool mp p1 in
      let* (mp, p2) := mpool_alloc mp 100 in
      let* h2 := load_int (p2 - HEADER_SIZE) in
      let* (mp, p3) := mpool_alloc mp 40 in
      let* h3 := load_int (p3 - HEADER_SIZE) in
      mret (Some (p1, h1, p2, h2, p3, h3))
  end.

(** States of a run on [world0]: after init(3, 12), after a following
    alloc(10), and after releasing that pointer and allocating again. *)
Definition st_init : option mpool * world :=
  run_from None (mpool_init 3 12) world0.

Definition mp_init : mpool := default no_pool (fst st_init).




(** * Properties *)

(** ** Inversion of the monad's operations *)

Lemma mbind_ret {A B} (c : M A) (k : A → M B) (w : world) (r : B * world) :
  mbind c k w = Ret r → ∃ a w1, c w = Ret (a, w1) ∧ k a w1 = Ret r.
Proof.
  unfold mbind. destruct (c w) as [[a w1]|f]; [eauto | discriminate].
Qed.

Lemma massert_ret (b : bool) (w : world) (r : unit * world) :
  massert b w = Ret r → b = true ∧ r = (tt, w).
Proof. destruct b; cbn; [intros [= <-]; done | discriminate]. Qed.

Lemma lift_ret {A} (o : outcome A) (w : world) (r : A * world) :
  lift o w = Ret r → ∃ a, o = Ret a ∧ r = (a, w).
Proof. destruct o; cbn; [intros [= <-]; eauto | discriminate]. Qed.

(** ** The size-class loop *)

Section ClassLoop.
Variable sz : Z.

Lemma class_loop_spec (fuel k : nat) : ∀ (i p : Z),
  0 < p → sz < p * 2 ^ Z.of_nat k → p * 2 ^ Z.of_nat k ≤ INT_MAX →
  (k < fuel)%nat →
  ∃ j : nat, (j ≤ k)%nat ∧
    class_loop fuel i p sz = Ret (i + Z.of_nat j, p * 2 ^ Z.of_nat j) ∧
    sz < p * 2 ^ Z.of_nat j ∧
    ∀ t : nat, (t < j)%nat → p * 2 ^ Z.of_nat t ≤ sz.
Proof.
  revert k. induction fuel as [|fuel IH]; intros k i p Hp Hlt Hmax Hk; [lia|].
  cbn [class_loop]. destruct (Z.ltb_spec sz p) as [Hsp|Hsp].
  - exists 0%nat. rewrite Z.add_0_r, Z.mul_1_r. repeat split; [lia|done|lia].
  - destruct k as [|k].
    { rewrite Z.mul_1_r in Hlt. lia. }
    assert (H2 : 2 ^ Z.of_nat (S k) = 2 * 2 ^ Z.of_nat k).
    { rewrite Nat2Z.inj_succ, Z.pow_succ_r; lia. }
    assert (0 < 2 ^ Z.of_nat k) by (apply Z.pow_pos_nonneg; lia).
    destruct (Z.ltb_spec INT_MAX (p * 2)) as [Hov|Hov]; [nia|].
    destruct (IH k (i + 1) (p * 2)) as (j & Hj & Hrun & Hgt & Hmin);
      [lia | nia | nia | lia |].
    exists (S j).
    assert (Hj2 : p * 2 ^ Z.of_nat (S j) = p * 2 * 2 ^ Z.of_nat j).
    { rewrite Nat2Z.inj_succ, Z.pow_succ_r; lia. }
    rewrite Hj2. repeat split; [lia | | done |].
    + rewrite Hrun. f_equal. f_equal. lia.
    + intros [|t] Ht; [rewrite Z.mul_1_r; lia|].
      specialize (Hmin t ltac:(lia)).
      rewrite Nat2Z.inj_succ, Z.pow_succ_r by lia. lia.
Qed.
End ClassLoop.

(** ** Inversion tactics for returning computations *)

Lemma result_ret {A} (o : outcome (A * world)) (a : A) :
  result o = Some a → ∃ w, o = Ret (a, w).
Proof. destruct o as [[a' w]|f]; cbn; [intros [= ->]; eauto | discriminate]. Qed.

Tactic Notation "inv_bind" hyp(H) "as" ident(a) ident(w1) ident(E) :=
  apply mbind_ret in H as (a & w1 & E & H).

Tactic Notation "inv_assert" hyp(H) "as" ident(Hb) :=
  let u := fresh in let w1 := fresh in let E := fresh in
  apply mbind_ret in H as (u & w1 & E & H);
  apply massert_ret in E as [Hb [= -> ->]].

Tactic Notation "inv_lift" hyp(H) "as" ident(a) ident(E) :=
  let w1 := fresh in let E' := fresh in
  apply mbind_ret in H as (a & w1 & E' & H);
  apply lift_ret in E' as (? & E & [= <- ->]).

(** ** Initialisation *)

Lemma shl1_ret (k v : Z) : shl1 k = Ret v → 0 ≤ k ≤ 30 ∧ v = 2 ^ k.
Proof.
  unfold shl1. destruct (Z.leb_spec 0 k), (Z.ltb_spec k 31); cbn; try discriminate.
  intros [= <-]. split; [lia|]. rewrite Z.shiftl_1_l. done.
Qed.

Lemma mpool_init_inv (min2 max2 : Z) (w : world) (mp : mpool) :
  result (mpool_init min2 max2 w) = Some (Some mp) →
  3 ≤ min2 ∧ min2 ≤ max2 ∧ max2 ≤ 30 ∧
  min_pool mp = 2 ^ min2 ∧ max_pool mp = 2 ^ max2 ∧
  cnt mp = max2 - min2 + 1 ∧
  fastbin mp = replicate 7 NULL ∧
  hs mp = replicate (Z.to_nat (max2 - min2 + 1)) NULL.
Proof.
  intros (w' & H)%result_ret. unfold mpool_init in H.
  inv_assert H as Hmin. inv_lift H as n Hn. inv_assert H as Hcnt.
  inv_bind H as a w1 Hmp. inv_bind H as b w2 Hps. inv_bind H as c w3 Hsz.
  unfold int_range in Hn.
  destruct (_ && _) in Hn; [|discriminate]. injection Hn as <-.
  destruct (_ || _) in H; [discriminate H|].
  inv_lift H as lo Hlo. inv_lift H as hi Hhi.
  inv_bind H as u1 w4 Hz1. inv_bind H as u2 w5 Hz2.
  injection H as <- _.
  apply shl1_ret in Hlo as [? ->]. apply shl1_ret in Hhi as [? ->].
  cbn. repeat split; lia.
Qed.

(** ** Free-list heads are never emptied *)







Lemma load_ret (n : nat) (a v : Z) (w w' : world) :
  load n a w = Ret (v, w') → w' = w.
Proof.
  unfold load. destruct (load_bytes _ _ _); [by intros [= _ <-] | discriminate].
Qed.

Lemma PAGE_SIZE_ret (pg : Z) (w w' : world) :
  PAGE_SIZE w = Ret (pg, w') → w' = w ∧ 0 ≤ pg.
Proof.
  unfold PAGE_SIZE, to_uint. intros [= <- <-]. split; [done|].
  apply Z.mod_pos_bound. reflexivity.
Qed.









(** ** Loads see what stores wrote *)

Lemma store_bytes_spec (bs : list Z) : ∀ (m m' : gmap Z Z) (a : Z),
  store_bytes m a bs = Some m' →
  (∀ x, x < a → m' !! x = m !! x) ∧
  load_bytes m' a (length bs) = Some bs.
Proof.
  induction bs as [|b bs IH]; intros m m' a H; cbn in H.
  - injection H as <-. done.
  - destruct (m !! a) eqn:Ha; [|discriminate].
    apply IH in H as [Hframe Hload]. split.
    + intros x Hx. rewrite Hframe by lia. apply lookup_insert_ne. lia.
    + cbn. rewrite Hframe by lia. rewrite lookup_insert_eq, Hload. done.
Qed.

Lemma le_decode_encode (n : nat) : ∀ v : Z,
  0 ≤ v < 256 ^ Z.of_nat n → le_decode (le_encode n v) = v.
Proof.
  induction n as [|n IH]; intros v Hv.
  - cbn in *. lia.
  - rewrite Nat2Z.inj_succ, Z.pow_succ_r in Hv by lia.
    cbn [le_encode le_decode]. rewrite IH.
    + pose proof (Z.div_mod v 256 ltac:(lia)). lia.
    + split; [apply Z.div_pos; lia | apply Z.div_lt_upper_bound; lia].
Qed.

Lemma length_le_encode (n : nat) (v : Z) : length (le_encode n v) = n.
Proof. revert v. induction n as [|n IH]; intros v; cbn; [done | by rewrite IH]. Qed.

Lemma load_store (n : nat) (a v : Z) (w w' : world) :
  store n a v w = Ret (tt, w') → 0 ≤ v < 256 ^ Z.of_nat n →
  load n a w' = Ret (v, w').
Proof.
  unfold store, load. intros H Hv.
  destruct (store_bytes _ _ _) as [m'|] eqn:Hst; [|discriminate].
  injection H as <-. cbn [mem set_mem].
  apply store_bytes_spec in Hst as [_ Hload].
  rewrite length_le_encode in Hload. rewrite Hload.
  by rewrite le_decode_encode.
Qed.

Lemma to_int_small (v : Z) : 0 ≤ v ≤ INT_MAX → to_int v = v.
Proof.
  unfold to_int, INT_MAX, UINT_MODULUS. intros Hv.
  rewrite Z.mod_small by lia. destruct (Z.leb_spec v 2147483647); lia.
Qed.

Lemma load_int_store_int (a v : Z) (w w' : world) :
  store_int a v w = Ret (tt, w') → 0 ≤ v ≤ INT_MAX →
  load_int a w' = Ret (v, w').
Proof.
  unfold store_int. intros H Hv.
  assert (Hb : 0 ≤ v < 256 ^ Z.of_nat 4) by (unfold INT_MAX in Hv; cbn; lia).
  pose proof (load_store 4 a v w w' H Hb) as Hl.
  unfold load_int, mbind, mret. rewrite Hl. by rewrite to_int_small.
Qed.

Lemma class_loop_range (fuel : nat) : ∀ (i p sz j c : Z),
  0 < p ≤ INT_MAX → class_loop fuel i p sz = Ret (j, c) → 0 < c ≤ INT_MAX.
Proof.
  induction fuel as [|fuel IH]; intros i p sz j c Hp H; cbn in H; [discriminate|].
  destruct (sz <? p); [by injection H as _ <-|].
  destruct (Z.ltb_spec INT_MAX (p * 2)); [discriminate|].
  eapply IH; [|done]. lia.
Qed.

Lemma alloc_done_header (mp mp' : mpool) (cur c p : Z) (w w' : world) :
  alloc_done mp cur c w = Ret ((mp', p), w') → 0 ≤ c ≤ INT_MAX →
  load_int (p - HEADER_SIZE) w' = Ret (c, w').
Proof.
  unfold alloc_done. intros H Hc. inv_bind H as u w1 Hst.
  injection H as <- <- <-. destruct u.
  replace (cur + SIZEOF_INT - HEADER_SIZE) with cur
    by (unfold SIZEOF_INT, HEADER_SIZE; lia).
  by eapply load_int_store_int.
Qed.

Lemma get_mmap_ret (sz p : Z) (w w' : world) :
  get_mmap sz w = Ret (p, w') → p ≠ NULL → 0 < sz.
Proof.
  unfold get_mmap, mbind, sys_mmap. intros H Hp.
  destruct (next_decision _) as [ok s'].
  destruct (Z.ltb_spec 0 sz); [done|].
  rewrite andb_false_r in H. cbn in H. by injection H as <- _.
Qed.

Lemma alloc_pop_header (mp mp' : mpool) (i cur c p : Z) (w w' : world) :
  alloc_pop mp i cur c w = Ret ((mp', p), w') → p ≠ NULL →
  0 ≤ c ≤ INT_MAX → load_int (p - HEADER_SIZE) w' = Ret (c, w').
Proof.
  unfold alloc_pop. intros H Hp Hc. inv_assert H as Hcur.
  inv_bind H as nxt w1 Hnxt. inv_bind H as g w2 Hgrow.
  destruct g as [mp1 [|]]; cbn [negb] in H.
  - inv_bind H as v w3 Hv. inv_bind H as pg w4 Hpg. inv_assert H as Hgt.
    inv_bind H as v' w5 Hv'. inv_lift H as hs' Hset.
    by eapply alloc_done_header.
  - by injection H as _ <- _.
Qed.

Lemma alloc_from_list_header (mp mp' : mpool) (i c p : Z) (w w' : world) :
  alloc_from_list mp i c w = Ret ((mp', p), w') → p ≠ NULL →
  0 ≤ c ≤ INT_MAX → load_int (p - HEADER_SIZE) w' = Ret (c, w').
Proof.
  unfold alloc_from_list. intros H Hp Hc. inv_lift H as cur Hcur.
  destruct (cur =? NULL).
  - inv_bind H as pg w1 Hpg. inv_bind H as pool w2 Hpool.
    destruct (pool =? NULL).
    + by injection H as _ <- _.
    + inv_lift H as hs' Hset. inv_bind H as u1 w3 H1. inv_bind H as u2 w4 H2.
      inv_lift H as cur' Hcur'. by eapply alloc_pop_header.
  - by eapply alloc_pop_header.
Qed.

(** Every pointer a successful alloc returns is preceded by the header
    [header_for] describes, as release will read it. *)
Lemma mpool_alloc_header (mp mp' : mpool) (sz p : Z) (w w' : world) :
  mpool_alloc mp sz w = Ret ((mp', p), w') → p ≠ NULL →
  0 < min_pool mp ≤ INT_MAX →
  ∃ h, header_for mp sz = Ret h ∧
       load_int (p - HEADER_SIZE) w' = Ret (h, w').
Proof.
  unfold mpool_alloc, header_for. intros H Hp Hmin.
  inv_assert H as Hmp. inv_lift H as n Hn.
  unfold int_range in Hn.
  destruct (Z.leb_spec (- INT_MAX - 1) (sz + HEADER_SIZE)),
           (Z.leb_spec (sz + HEADER_SIZE) INT_MAX); try discriminate.
  injection Hn as <-.
  destruct (_ <=? _).
  - inv_bind H as cur w1 Hmap. destruct (Z.eqb_spec cur NULL) as [->|Hne].
    + by injection H as _ <- _.
    + apply get_mmap_ret in Hmap; [|done].
      inv_bind H as u w2 Hst. injection H as _ <- <-. destruct u.
      exists (sz + HEADER_SIZE). split; [done|].
      replace (cur + SIZEOF_INT - HEADER_SIZE) with cur
        by (unfold SIZEOF_INT, HEADER_SIZE; lia).
      eapply load_int_store_int; [done | lia].
  - inv_lift H as ic Hclass. destruct ic as [i c]. rewrite Hclass.
    apply class_loop_range in Hclass; [|done].
    inv_assert H as Hc. exists c. split; [done|].
    destruct (i <? FASTBIN_SIZE).
    + inv_lift H as cur Hcur. destruct (negb (cur =? NULL)).
      * inv_bind H as nxt w1 Hnxt. inv_lift H as fb' Hfb.
        eapply alloc_done_header; [done | lia].
      * eapply alloc_from_list_header; [done | done | lia].
    + eapply alloc_from_list_header; [done | done | lia].
Qed.

(** ** What the end-of-arena block does to the log and the link *)

Lemma store_log (n : nat) (a v : Z) (u : unit) (w w' : world) :
  store n a v w = Ret (u, w') → log w' = log w ∧ heap w' = heap w.
Proof.
  unfold store. destruct (store_bytes _ _ _); [|discriminate].
  by intros [= _ <-].
Qed.

Lemma heap_set_mem (p i v : Z) (u : unit) (w w' : world) :
  heap_set p i v w = Ret (u, w') → mem w' = mem w ∧ log w' = log w.
Proof.
  unfold heap_set. destruct (heap w !! p); [|discriminate].
  destruct (arr_set _ _ _); [|discriminate]. by intros [= _ <-].
Qed.

Lemma sys_realloc_mem (p n a : Z) (w w' : world) :
  sys_realloc p n w = Ret (a, w') → mem w' = mem w ∧ log w' = log w.
Proof.
  unfold sys_realloc. destruct (heap w !! p); [|discriminate].
  destruct (next_decision _) as [[|] s']; by intros [= _ <-].
Qed.

Lemma add_pool_append_mem (mp mp' : mpool) (p sz r : Z) (w w' : world) :
  add_pool_append mp p sz w = Ret ((mp', r), w') →
  mem w' = mem w ∧ log w' = log w.
Proof.
  unfold add_pool_append. intros H.
  inv_bind H as u1 w1 H1. inv_bind H as u2 w2 H2.
  destruct (_ <? _) in H; [discriminate|]. injection H as _ _ <-.
  apply heap_set_mem in H1 as [Hm1 Hl1]. apply heap_set_mem in H2 as [Hm2 Hl2].
  split; congruence.
Qed.

Lemma add_pool_mem (mp mp' : mpool) (p sz r : Z) (w w' : world) :
  add_pool mp p sz w = Ret ((mp', r), w') →
  mem w' = mem w ∧ log w' = log w.
Proof.
  unfold add_pool. intros H. inv_assert H as Hp. inv_assert H as Hsz.
  destruct (_ =? _) in H; [|by eapply add_pool_append_mem].
  destruct (_ <? _) in H; [discriminate|].
  inv_bind H as nps w1 H1. inv_bind H as nsizes w2 H2.
  apply sys_realloc_mem in H1 as [Hm1 Hl1].
  apply sys_realloc_mem in H2 as [Hm2 Hl2].
  destruct (_ || _) in H.
  - injection H as _ _ <-. split; congruence.
  - apply add_pool_append_mem in H as [Hm3 Hl3]. split; congruence.
Qed.

Lemma new_pool_loop_log (n : nat) : ∀ (pool sz i o last o' : Z) (w w' : world),
  new_pool_loop n pool sz i o last w = Ret (o', w') → log w' = log w.
Proof.
  induction n as [|n IH]; intros pool sz i o last o' w w' H; cbn in H.
  - by injection H as _ <-.
  - inv_bind H as u w1 Hchk. inv_bind H as u2 w2 Hst. inv_bind H as l w3 Hld.
    apply IH in H as ->. apply load_ret in Hld as ->.
    apply store_log in Hst as [-> _].
    destruct (last =? NULL).
    + by injection Hchk as _ <-.
    + inv_bind Hchk as v w4 Hv. apply load_ret in Hv as ->.
      by apply massert_ret in Hchk as [_ [= _ <-]].
Qed.

Lemma mpool_new_pool_log (sz total p : Z) (w w' : world) :
  mpool_new_pool sz total w = Ret (p, w') → p ≠ NULL →
  ∃ len, log w' = log w ++ [EvMmap p len].
Proof.
  unfold mpool_new_pool. intros H Hp. inv_bind H as q w1 Hmap.
  destruct (Z.eqb_spec q NULL) as [->|Hq].
  - by injection H as <- _.
  - inv_assert H as Hnn. inv_assert H as Hsz. inv_bind H as o w2 Hloop.
    inv_bind H as u w3 Hst. injection H as <- <-.
    apply store_log in Hst as [-> _]. apply new_pool_loop_log in Hloop as ->.
    unfold get_mmap, mbind, sys_mmap in Hmap.
    destruct (next_decision _) as [ok s'].
    destruct (ok && _); cbn in Hmap; injection Hmap as <- <-; [|done].
    cbn [log]. eauto.
Qed.

(** When the popped chunk's next field is the empty sentinel and alloc
    goes on, a new arena has been mapped and the chunk's next field
    points to memory (it is not the sentinel any more). *)
Lemma alloc_grow_maps_and_links (mp mp1 : mpool) (cur c : Z) (w w' : world) :
  alloc_grow mp cur c NULL w = Ret ((mp1, true), w') →
  ∃ np len v,
    np ≠ NULL ∧ log w' = log w ++ [EvMmap np len] ∧
    load_ptr cur w' = Ret (v, w') ∧ v ≠ NULL.
Proof.
  unfold alloc_grow. rewrite Z.eqb_refl. intros H.
  inv_bind H as pg w1 Hpg. inv_bind H as np w2 Hnp.
  apply PAGE_SIZE_ret in Hpg as [-> _].
  destruct (Z.eqb_spec np NULL) as [->|Hne]; [discriminate|].
  apply mpool_new_pool_log in Hnp as [len Hlog]; [|done].
  inv_bind H as u w3 Hst. inv_bind H as v w4 Hld. inv_assert H as Hv.
  inv_bind H as res w5 Hadd. destruct res as [mp2 r].
  apply store_log in Hst as [Hl3 _]. apply load_ret in Hld as Hw. subst w4.
  apply add_pool_mem in Hadd as [Hm5 Hl5].
  destruct (r <? 0); [discriminate|]. injection H as _ <-.
  exists np, len, v. repeat split.
  - done.
  - congruence.
  - unfold load_ptr, load in *. rewrite Hm5.
    destruct (load_bytes _ _ _); [|discriminate]. by injection Hld as ->.
  - by destruct (Z.eqb_spec v NULL).
Qed.

(** ** Size classes *)

(** The class alloc computes for a request below the threshold: the first
    class of the doubling sequence from [min_pool] that is strictly larger
    than the header-adjusted request. *)
Lemma size_class_char (min2 max2 : Z) (w : world) (mp : mpool) (req : Z) :
  result (mpool_init min2 max2 w) = Some (Some mp) →
  req < max_pool mp →
  ∃ i, 0 ≤ i ≤ max2 - min2 ∧
       size_class mp req = Ret (i, min_pool mp * 2 ^ i) ∧
       req < min_pool mp * 2 ^ i ∧
       ∀ j, 0 ≤ j < i → min_pool mp * 2 ^ j ≤ req.
Proof.
  intros Hinit Hreq.
  apply mpool_init_inv in Hinit as (Hmin & Hle & Hmax & Hlo & Hhi & _).
  assert (Hsplit : 2 ^ max2 = 2 ^ min2 * 2 ^ (max2 - min2)).
  { rewrite <- Z.pow_add_r by lia. f_equal. lia. }
  assert (Hbound : 2 ^ max2 ≤ 2 ^ 30) by (apply Z.pow_le_mono_r; lia).
  assert (Hpos : 0 < 2 ^ min2) by (apply Z.pow_pos_nonneg; lia).
  destruct (class_loop_spec req 32 (Z.to_nat (max2 - min2)) 0 (min_pool mp))
    as (j & Hj & Hrun & Hgt & Hsmall).
  - lia.
  - rewrite Z2Nat.id by lia. rewrite Hlo, <- Hsplit, <- Hhi. done.
  - rewrite Z2Nat.id by lia. rewrite Hlo, <- Hsplit.
    unfold INT_MAX. change (2 ^ 30) with 1073741824 in Hbound. lia.
  - lia.
  - exists (Z.of_nat j). unfold size_class. rewrite Hrun.
    repeat split; [lia | lia | done |].
    intros t Ht. specialize (Hsmall (Z.to_nat t) ltac:(lia)).
    by rewrite Z2Nat.id in Hsmall by lia.
Qed.





(** C10: for header-adjusted requests s1 <= s2, both below max_pool, the
    class size alloc chooses for s1 is at most the one it chooses for
    s2 (and so is the class index). *)
Theorem class_monotone (min2 max2 : Z) (w : world) (mp : mpool) (s1 s2 : Z) :
  result (mpool_init min2 max2 w) = Some (Some mp) →
  s1 ≤ s2 → s2 < max_pool mp →
  ∃ i1 c1 i2 c2,
    size_class mp s1 = Ret (i1, c1) ∧ size_class mp s2 = Ret (i2, c2) ∧
    c1 ≤ c2 ∧ i1 ≤ i2.
Proof.
  intros Hinit Hle Hs2.
  destruct (size_class_char min2 max2 w mp s1 Hinit ltac:(lia))
    as (i1 & Hi1 & Hrun1 & Hgt1 & Hsmall1).
  destruct (size_class_char min2 max2 w mp s2 Hinit Hs2)
    as (i2 & Hi2 & Hrun2 & Hgt2 & Hsmall2).
  exists i1, (min_pool mp * 2 ^ i1), i2, (min_pool mp * 2 ^ i2).
  assert (Hidx : i1 ≤ i2).
  { destruct (Z.le_gt_cases i1 i2) as [|Hlt]; [done|].
    specialize (Hsmall1 i2 ltac:(lia)). lia. }
  apply mpool_init_inv in Hinit as (Hmin & _ & _ & Hlo & _).
  assert (0 < min_pool mp) by (rewrite Hlo; apply Z.pow_pos_nonneg; lia).
  assert (2 ^ i1 ≤ 2 ^ i2) by (apply Z.pow_le_mono_r; lia).
  repeat split; [done | done | nia | done].
Qed.

Lemma class_monotone_witness :
  ∃ i1 c1 i2 c2,
    size_class mp_init 14 = Ret (i1, c1) ∧
    size_class mp_init 1000 = Ret (i2, c2) ∧ c1 ≤ c2 ∧ i1 ≤ i2.
Proof.
  apply (class_monotone 3 12 world0 mp_init 14 1000).
  - vm_compute. reflexivity.
  - lia.
  - vm_compute. reflexivity.
Defined.

(** ** The free list of a class stays non-empty *)



(** ** Release and the class of a chunk *)

(** C1 fails on the code.  After init(3, 12), alloc(10) computes class
    index 1 (16 bytes) and writes 16 into the header; release computes
    index (16 >> 4) - 1 = 0 and makes the chunk the head of fastbin 0,
    while alloc looks for 16-byte chunks in fastbin 1 and list 1.
    alloc(100) computes class index 4 (128 bytes); release computes
    index 7, which is no fastbin, and pushes the chunk onto list 0. *)
Theorem release_goes_to_another_class :
  result (trace_release 3 12 10 world0) =
    Some (Some (1, 16, 16, 0, 1048576,
                [1048576; 0; 0; 0; 0; 0; 0],
                [0; 1048592; 0; 0; 0; 0; 0; 0; 0; 0])) ∧
  result (trace_release 3 12 100 world0) =
    Some (Some (4, 128, 128, 7, 1048576,
                [0; 0; 0; 0; 0; 0; 0],
                [1048576; 0; 0; 0; 1048704; 0; 0; 0; 0; 0])).
Proof. split; vm_compute; reflexivity. Qed.

(** C2 fails on the code.  After init(3, 12), alloc(10) returns
    1048580; after releasing it, alloc(10) returns 1048596, the next
    chunk of the arena, which was never handed out before: the released
    chunk sits in fastbin 0, where a 16-byte request does not look. *)
Theorem released_chunk_not_reused :
  result (trace_reuse 3 12 10 10 world0) =
    Some (Some (1048580, 1048596, [EvMmap 1048576 4096])).
Proof. vm_compute. reflexivity. Qed.

(** C3 fails on the code.  After init(3, 3), alloc(4) returns a chunk
    whose header is 8 = max_pool, so release takes the pool branch; the
    index it computes is (8 >> 4) - 1 = -1, which passes the test
    i < FASTBIN_SIZE, and fastbin[-1] is accessed. *)
Theorem release_indexes_below_fastbin :
  match trace_alloc 3 3 4 world0 with
  | Ret (Some (mp, p, h), w) =>
      h = 8 ∧ h ≤ max_pool mp ∧
      repool_index h = -1 ∧ repool_index h < FASTBIN_SIZE ∧
      mpool_repool mp p w = Fault OutOfBounds
  | _ => False
  end.
Proof. vm_compute. repeat split; congruence. Qed.

(** C5 fails on the code.  After init(4, 12), alloc(4092) is oversized
    (4096 >= max_pool) and is mapped directly, with 4096 in its header.
    Release compares 4096 > max_pool, which is false, so nothing is
    unmapped and the chunk becomes the head of list 0; the next
    alloc(1) hands the same memory out as a chunk of the 16-byte
    class. *)
Theorem oversized_chunk_enters_class :
  result (trace_boundary world0) =
    Some (Some (1048580, 4096,
                [1048576; 0; 0; 0; 0; 0; 0; 0; 0],
                [EvMmap 1048576 4096],
                1048580, 16)).
Proof. vm_compute. reflexivity. Qed.

(** ** The pool registry *)

(** C6 fails on the code.  With the registry full (cnt = pal = 4), the
    alloc that has to register a fifth arena fails when a realloc fails,
    but pal has been doubled to 8 before the reallocs; and when one of
    the two reallocs did succeed, the block it moved is no longer live
    while the registry still holds the old pointer. *)
Theorem failed_growth_changes_registry :
  let before := (4, 4, 4136, 4168,
                 Some [1048576; 0; 1052672; 1056768],
                 Some [4096; 0; 4096; 4096; UNINIT; UNINIT; UNINIT; UNINIT]) in
  (* both reallocs fail *)
  result (trace_growth (world_heap [true; true; true; true; true; false; false])) =
    Some (Some (before,
                (4, 8, 4136, 4168,
                 Some [1048576; 0; 1052672; 1056768],
                 Some [4096; 0; 4096; 4096; UNINIT; UNINIT; UNINIT; UNINIT]),
                NULL)) ∧
  (* the pointer array cannot grow, the size array can *)
  result (trace_growth (world_heap [true; true; true; true; true; false; true])) =
    Some (Some (before,
                (4, 8, 4136, 4168, Some [1048576; 0; 1052672; 1056768], None),
                NULL)) ∧
  (* the pointer array can grow, the size array cannot *)
  result (trace_growth (world_heap [true; true; true; true; true; true; false])) =
    Some (Some (before,
                (4, 8, 4136, 4168, None,
                 Some [4096; 0; 4096; 4096; UNINIT; UNINIT; UNINIT; UNINIT]),
                NULL)).
Proof. repeat split; vm_compute; reflexivity. Qed.

(** Where every registration succeeds, teardown unmaps each registered
    arena once: the two arenas of the run below, and, after init(3, 12)
    and alloc(10), the arena recorded with size 16, which is unmapped
    with the length of a whole page. *)
Lemma teardown_unmaps_registered :
  result (trace_teardown 12 13 100 1052672 world0) =
    Some (Some (1048580,
                Some [1048576; 0; 1052672; UNINIT],
                [EvMmap 1048576 4096; EvMmap 1052672 4096],
                [EvMmap 1048576 4096; EvMmap 1052672 4096;
                 EvMunmap 1048576 4096; EvMunmap 1052672 4096],
                false)) ∧
  result (trace_teardown 3 12 10 1048576 world0) =
    Some (Some (1048580,
                Some [0; 1048576; 0; 0; 0; 0; 0; 0; 0; 0; 0; 0; 0; 0; 0; 0],
                [EvMmap 1048576 4096],
                [EvMmap 1048576 4096; EvMunmap 1048576 4096],
                false)).
Proof. split; vm_compute; reflexivity. Qed.

(** C7 fails on the code.  After init(12, 13), alloc(100) maps the first
    arena of the 4096-byte class at 1048576 and, its only chunk being the
    last one, a second arena at 1052672, which it links to the chunk.
    When the registry cannot grow, alloc returns NULL and the second
    arena is in no registry slot; teardown unmaps the first arena only
    and the second stays mapped. *)
Theorem unregistered_arena_leaks :
  result (trace_teardown 12 13 100 1052672
            (world_heap [true; true; true; false; false])) =
    Some (Some (NULL,
                Some [1048576; 0],
                [EvMmap 1048576 4096; EvMmap 1052672 4096],
                [EvMmap 1048576 4096; EvMmap 1052672 4096;
                 EvMunmap 1048576 4096],
                true)).
Proof. vm_compute. reflexivity. Qed.

(** ** The chunk header *)

(** C8 fails on the code.  After init(4, 12), alloc(40) carves a chunk
    of the arena of 64-byte cells at 1048576 (header 64).  Released, it
    goes to fastbin (64 >> 4) - 1 = 3, the slot of the 128-byte class,
    and alloc(100) returns the same pointer with header 128.  The next
    alloc(40) returns 1048644, the following 64-byte cell, which lies
    inside the 128 bytes the header attributes to the first chunk. *)
Theorem header_exceeds_chunk :
  result (trace_header world0) =
    Some (Some (1048580, 64, 1048580, 128, 1048644, 64)) ∧
  1048580 - HEADER_SIZE < 1048644 < 1048580 - HEADER_SIZE + 128.
Proof. split; [vm_compute; reflexivity | unfold HEADER_SIZE; lia]. Qed.
